(** * CampaignService

    A shallow embedding of [src/services/CampaignService.js]: the static
    service object that maps Campaigns, Milestones and Donations onto the
    remote store (feathers) and onto the campaign contracts.

    The service is callback and promise driven.  Every operation is embedded
    as a reactive process: the calls it makes when it is invoked, and, for
    every settlement or event the environment delivers (a store promise
    resolving, the [transactionHash] event, the transaction promise
    settling), the handler the source registered for it.  Calls on
    collaborators and invocations of the caller's callbacks are recorded as
    effects, in the order the source performs them. *)

From Stdlib Require Import ZArith Lia.
From stdpp Require Import base gmap strings list.

(** ** JavaScript values *)

(** The primitive values the service handles: ids, record fields, callback
    arguments. *)
Inductive jsval :=
| VUndefined
| VNull
| VBool (b : bool)
| VNum (n : Z)
| VStr (s : string).

#[global] Instance jsval_eq_dec : EqDecision jsval.
Proof. solve_decision. Defined.

(** Truthiness, as used by [if (campaign.id)]. *)
Definition truthy (v : jsval) : bool :=
  match v with
  | VUndefined | VNull => false
  | VBool b => b
  | VNum n => negb (n =? 0)%Z
  | VStr s => negb (String.eqb s "")
  end.

(** A [let] variable holding a string once assigned: [None] is [undefined]. *)
Definition truthy_var (x : option string) : bool :=
  match x with
  | None => false
  | Some s => negb (String.eqb s "")
  end.

(** Interpolation [${x}] of such a variable in a template literal. *)
Definition interpolate (x : option string) : string :=
  match x with
  | None => "undefined"
  | Some s => s
  end.

(** [s.includes(sub)]: [sub] occurs in [s] as a contiguous substring. *)
Fixpoint includes (s sub : string) : bool :=
  if String.prefix sub s then true
  else match s with
       | EmptyString => false
       | String _ s' => includes s' sub
       end.

(** A raw store record: a JavaScript object used as a map from field names
    to values. *)
Abbreviation raw := (gmap string jsval).

(** A rejection value.  The service observes one only through [err.message]
    and through [JSON.stringify(err, null, 2)]. *)
Record error := Error {
  message : option string;
  json : string
}.

(** The response of a [find]. *)
Record response := Response {
  data : list raw;
  total : Z
}.

(** Objects of the blockchain libraries are opaque to the service. *)
Inductive handle := Handle (name : string).

(** What [getNetwork()] resolves to. *)
Record network := Network {
  lppCampaignFactory : handle;
  etherscan : string
}.

(** ** Store queries *)

(** The operators the service puts in a query: plain equality, [$gt] and
    [$nin]. *)
Inductive constraint :=
| Is (v : jsval)
| Gt (v : jsval)
| Nin (vs : list jsval).

(** A query object: the field constraints, [$sort], [$limit] and [$skip]. *)
Record query := Query {
  q_where : list (string * constraint);
  q_sort : list (string * Z);
  q_limit : option Z;
  q_skip : option Z
}.

(** Meaning of the operators on a field of a record, in the store's common
    query syntax: a comparison needs a number on both sides, [$nin] also
    accepts a record without the field. *)
Definition js_gt (x bound : jsval) : bool :=
  match x, bound with
  | VNum a, VNum b => (b <? a)%Z
  | _, _ => false
  end.

Definition holds (c : constraint) (field : option jsval) : bool :=
  match c, field with
  | Is v, Some x => bool_decide (x = v)
  | Is _, None => false
  | Gt v, Some x => js_gt x v
  | Gt _, None => false
  | Nin vs, Some x => bool_decide (x ∉ vs)
  | Nin _, None => true
  end.

Definition satisfies (q : query) (r : raw) : bool :=
  forallb (λ kc, holds kc.2 (r !! kc.1)) (q_where q).

(** A default parameter value [x = d] applies when the argument is
    [undefined]. *)
Definition default_arg (d : Z) (x : option Z) : Z :=
  match x with
  | None => d
  | Some v => v
  end.

(** ** The domain models

    [models/Campaign], [models/Milestone] and [models/Donation] are used by
    the service through their constructors, their status constants and a few
    fields and methods of a Campaign.  The constructors normalise a raw
    record into a domain object; what [new Campaign(undefined)] does is
    left open: it returns an object or throws. *)
Class Models := {
  Campaign : Type;
  Donation : Type;
  new_Campaign : raw → Campaign;
  new_Campaign_undefined : error + Campaign;
  new_Donation : raw → Donation;
  Campaign_ACTIVE : jsval;
  Campaign_CANCELED : jsval;
  Milestone_CANCELED : jsval;
  Milestone_PROPOSED : jsval;
  Milestone_REJECTED : jsval;
  Milestone_PENDING : jsval;
  campaign_id : Campaign → jsval;
  title : Campaign → string;
  reviewerAddress : Campaign → string;
  pluginAddress : Campaign → string;
  toFeathers : Campaign → option string → raw
}.

Section Service.

Context `{M : Models}.

(** [new Campaign(x)] for [x = resp.data[0]], which is [undefined] when the
    list is empty. *)
Definition construct_Campaign (x : option raw) : error + Campaign :=
  match x with
  | Some r => inr (new_Campaign r)
  | None => new_Campaign_undefined
  end.

(** ** Effects and events *)

(** The second argument of [ErrorPopup]: a text or the error itself. *)
Inductive popup_detail :=
| Text (s : string)
| Err (e : error).

(** What an operation does to the outside: calls on the store, on the
    blockchain accessors and contracts, on the error popup, and invocations
    of the callbacks it was given. *)
Inductive effect :=
| Find (service : string) (q : query)
| WatchFind (service strategy : string) (q : query) (schema : option string)
| Patch (service : string) (id : jsval) (fields : raw)
| Create (service : string) (record : raw)
| GetNetwork
| GetWeb3
| NewCampaign (factory : handle) (name url : string) (parentProject : Z)
    (reviewer from : string)
| CancelCampaign (web3 : handle) (address from : string)
| ErrorPopup (msg : string) (detail : popup_detail)
| Resolve (c : Campaign)
| Reject (e : error)
| OnSuccessCampaigns (cs : list Campaign) (n : Z)
| OnSuccessRecords (rs : list raw) (n : Z)
| OnSuccessDonations (ds : list Donation)
| OnError (e : error)
| AfterCreate (args : list jsval)
| AfterMined (args : list jsval).

(** What the environment delivers to the handlers an operation registered. *)
Inductive event :=
| FindResolved (resp : response)
| FindRejected (e : error)
| Emission (resp : response)
| SubscriptionError (e : error)
| PatchResolved (v : jsval)
| PatchRejected (e : error)
| CreateResolved (v : jsval)
| CreateRejected (e : error)
| NetworkResolved (n : network)
| NetworkRejected (e : error)
| Web3Resolved (w : handle)
| Web3Rejected (e : error)
| TransactionHash (h : string)
| Mined
| TxRejected (e : error).

(** An operation: the calls made when it is invoked, and its reaction to an
    event.  [react] is [None] for an event no handler is waiting for: a
    promise settles once, a [once] handler runs once, nothing answers a
    request that was not made. *)
Record process := Process {
  state : Type;
  start : state * list effect;
  react : state → event → option (state * list effect)
}.

(** The log of a run: delivered events and the effects they cause,
    interleaved in order. *)
Inductive entry :=
| Recv (ev : event)
| Call (ef : effect).

Fixpoint log_from (P : process) (st : state P) (evs : list event)
  : list entry :=
  match evs with
  | [] => []
  | ev :: evs' =>
      match react P st ev with
      | Some (st', out) => Recv ev :: map Call out ++ log_from P st' evs'
      | None => log_from P st evs'
      end
  end.

Fixpoint state_from (P : process) (st : state P) (evs : list event)
  : state P :=
  match evs with
  | [] => st
  | ev :: evs' =>
      match react P st ev with
      | Some (st', _) => state_from P st' evs'
      | None => state_from P st evs'
      end
  end.

Definition log (P : process) (evs : list event) : list entry :=
  map Call (start P).2 ++ log_from P (start P).1 evs.

Definition state_after (P : process) (evs : list event) : state P :=
  state_from P (start P).1 evs.

(** The effects of a log, in order. *)
Definition calls (l : list entry) : list effect :=
  omap (λ x, match x with Call ef => Some ef | Recv _ => None end) l.

(** ** Read operations *)

(** A one-shot request is answered once. *)
Inductive oneshot := Waiting | Answered.

(** [get(id)]: the executor of the returned promise calls [find] with
    [{ _id: id }]; [then] resolves with [new Campaign(resp.data[0])], and
    [catch(reject)] rejects with the failure of the [find] or with what the
    [then] callback threw. *)
Definition get_query (id : jsval) : query :=
  {| q_where := [("_id", Is id)]; q_sort := []; q_limit := None;
     q_skip := None |}.

Definition get_then (resp : response) : list effect :=
  match construct_Campaign (data resp !! 0%nat) with
  | inr c => [Resolve c]
  | inl thrown => [Reject thrown]
  end.

Definition get (id : jsval) : process :=
  {| start := (Waiting, [Find "campaigns" (get_query id)]);
     react st ev :=
       match st, ev with
       | Waiting, FindResolved resp => Some (Answered, get_then resp)
       | Waiting, FindRejected e => Some (Answered, [Reject e])
       | _, _ => None
       end |}.

(** [getCampaigns($limit = 100, $skip = 0, onSuccess, onError)]. *)
Definition getCampaigns_query (limit skip : option Z) : query :=
  {| q_where := [("projectId", Gt (VNum 0)); ("status", Is Campaign_ACTIVE)];
     q_sort := [("createdAt", (-1)%Z)];
     q_limit := Some (default_arg 100 limit);
     q_skip := Some (default_arg 0 skip) |}.

Definition getCampaigns (limit skip : option Z) : process :=
  {| start := (Waiting, [Find "campaigns" (getCampaigns_query limit skip)]);
     react st ev :=
       match st, ev with
       | Waiting, FindResolved resp =>
           Some (Answered,
                 [OnSuccessCampaigns (map new_Campaign (data resp))
                    (total resp)])
       | Waiting, FindRejected e => Some (Answered, [OnError e])
       | _, _ => None
       end |}.

(** [getMilestones(id, $limit = 100, $skip = 0, onSuccess, onError)]. *)
Definition getMilestones_query (id : jsval) (limit skip : option Z) : query :=
  {| q_where :=
       [("campaignId", Is id);
        ("status",
         Nin [Milestone_CANCELED; Milestone_PROPOSED; Milestone_REJECTED;
              Milestone_PENDING])];
     q_sort := [("createdAt", (-1)%Z)];
     q_limit := Some (default_arg 100 limit);
     q_skip := Some (default_arg 0 skip) |}.

Definition getMilestones (id : jsval) (limit skip : option Z) : process :=
  {| start := (Waiting, [Find "milestones" (getMilestones_query id limit skip)]);
     react st ev :=
       match st, ev with
       | Waiting, FindResolved resp =>
           Some (Answered, [OnSuccessRecords (data resp) (total resp)])
       | Waiting, FindRejected e => Some (Answered, [OnError e])
       | _, _ => None
       end |}.

(** ** Live subscriptions *)

(** [subscribeDonations(id, onSuccess, onError)]: [watch] with the list
    strategy [always], [find] with the query wrapped by [paramsForServer]
    together with the schema name, and [subscribe] with the two handlers.
    The subscription stays open: every emission runs the first handler. *)
Definition subscribeDonations_query (id : jsval) : query :=
  {| q_where := [("campaignId", Is id); ("isReturn", Is (VBool false))];
     q_sort := [("createdAt", (-1)%Z)];
     q_limit := None;
     q_skip := None |}.

Definition subscribeDonations_call (id : jsval) : effect :=
  WatchFind "donations" "always" (subscribeDonations_query id)
    (Some "includeTypeAndGiverDetails").

Definition subscribeDonations (id : jsval) : process :=
  {| start := (tt, [subscribeDonations_call id]);
     react st ev :=
       match ev with
       | Emission resp =>
           Some (tt, [OnSuccessDonations (map new_Donation (data resp))])
       | SubscriptionError e => Some (tt, [OnError e])
       | _ => None
       end |}.

(** [subscribeDonations] returns what the store's [subscribe] returned for
    the subscription it opened. *)
Definition subscribeDonations_returns (subscribe : effect → handle)
    (id : jsval) : handle :=
  subscribe (subscribeDonations_call id).

(** ** Mutations *)

(** The two [let] variables that the handlers of [save] and of [cancel]
    share; both start [undefined]. *)
Record vars := Vars {
  txHash : option string;
  etherScanUrl : option string
}.

(** A request or promise: not made yet, awaiting its answer, answered. *)
Inductive settle := Unsent | Pending | Settled.

Definition pending (p : settle) : bool :=
  match p with
  | Pending => true
  | _ => false
  end.

(** The template [`${etherScanUrl}tx/${txHash}`]. *)
Definition explorer_link (v : vars) : string :=
  interpolate (etherScanUrl v) +:+ "tx/" +:+ interpolate (txHash v).

(** The template
    [`${etherScanUrl}tx/${txHash} => ${JSON.stringify(err, null, 2)}`]. *)
Definition failure_report (v : vars) (err : error) : string :=
  explorer_link v +:+ " => " +:+ json err.

(** The guard of the [catch] on the transaction:
    [txHash && err.message && err.message.includes('unknown transaction')]. *)
Definition known_false_failure (v : vars) (err : error) : bool :=
  truthy_var (txHash v) && truthy_var (message err) &&
  match message err with
  | Some m => includes m "unknown transaction"
  | None => false
  end.

(** *** save *)

Definition save_failed : string :=
  "Something went wrong with the transaction. Is your wallet unlocked?".

Record save_state := SaveState {
  s_vars : vars;
  s_patch : settle;    (* patch(campaign.id, ...) of the update branch *)
  s_network : settle;  (* getNetwork() *)
  s_tx : settle;       (* newCampaign(...) and its transactionHash handler *)
  s_create : settle    (* create(...) made by the transactionHash handler *)
}.

(** [if (campaign.id)] patch the record, [else] ask for the network. *)
Definition save_start (campaign : Campaign) : save_state * list effect :=
  if truthy (campaign_id campaign) then
    (SaveState (Vars None None) Pending Unsent Unsent Unsent,
     [Patch "campaigns" (campaign_id campaign) (toFeathers campaign None)])
  else
    (SaveState (Vars None None) Unsent Pending Unsent Unsent, [GetNetwork]).

(** [then] of [getNetwork()]: remember the explorer and call the factory. *)
Definition save_network_then (campaign : Campaign) (from : string)
    (st : save_state) (n : network) : save_state * list effect :=
  (SaveState (Vars (txHash (s_vars st)) (Some (etherscan n)))
     (s_patch st) Settled Pending (s_create st),
   [NewCampaign (lppCampaignFactory n) (title campaign) "" 0
      (reviewerAddress campaign) from]).

(** The outer [catch]. *)
Definition save_network_catch (st : save_state) (err : error)
  : save_state * list effect :=
  (SaveState (s_vars st) (s_patch st) Settled (s_tx st) (s_create st),
   [ErrorPopup save_failed (Text (failure_report (s_vars st) err))]).

(** [once('transactionHash', hash => ...)]. *)
Definition save_transactionHash (campaign : Campaign) (st : save_state)
    (hash : string) : save_state * list effect :=
  (SaveState (Vars (Some hash) (etherScanUrl (s_vars st)))
     (s_patch st) (s_network st) (s_tx st) Pending,
   [Create "campaigns" (toFeathers campaign (Some hash))]).

(** [then(id => afterCreate(link, id))] of the [create]; a rejected
    [create] has no handler. *)
Definition save_create_then (st : save_state) (id : jsval)
  : save_state * list effect :=
  (SaveState (s_vars st) (s_patch st) (s_network st) (s_tx st) Settled,
   [AfterCreate [VStr (explorer_link (s_vars st)); id]]).

(** [then] and [catch] of the transaction. *)
Definition save_tx_then (st : save_state) : save_state * list effect :=
  (SaveState (s_vars st) (s_patch st) (s_network st) Settled (s_create st),
   [AfterMined [VStr (explorer_link (s_vars st))]]).

Definition save_tx_catch (st : save_state) (err : error)
  : save_state * list effect :=
  (SaveState (s_vars st) (s_patch st) (s_network st) Settled (s_create st),
   if known_false_failure (s_vars st) err then []
   else [ErrorPopup save_failed (Text (failure_report (s_vars st) err))]).

Definition save_react (campaign : Campaign) (from : string)
    (st : save_state) (ev : event) : option (save_state * list effect) :=
  match ev with
  | PatchResolved _ =>
      if pending (s_patch st) then
        Some (SaveState (s_vars st) Settled (s_network st) (s_tx st)
                (s_create st),
              [AfterMined []])
      else None
  | PatchRejected _ =>
      if pending (s_patch st) then
        Some (SaveState (s_vars st) Settled (s_network st) (s_tx st)
                (s_create st),
              [])
      else None
  | NetworkResolved n =>
      if pending (s_network st) then Some (save_network_then campaign from st n)
      else None
  | NetworkRejected err =>
      if pending (s_network st) then Some (save_network_catch st err)
      else None
  | TransactionHash hash =>
      match s_tx st, s_create st with
      | Pending, Unsent => Some (save_transactionHash campaign st hash)
      | _, _ => None
      end
  | CreateResolved id =>
      if pending (s_create st) then Some (save_create_then st id) else None
  | CreateRejected _ =>
      if pending (s_create st) then
        Some (SaveState (s_vars st) (s_patch st) (s_network st) (s_tx st)
                Settled,
              [])
      else None
  | Mined => if pending (s_tx st) then Some (save_tx_then st) else None
  | TxRejected err =>
      if pending (s_tx st) then Some (save_tx_catch st err) else None
  | _ => None
  end.

(** [save(campaign, from, afterCreate, afterMined)]; the two callbacks are
    the effects [AfterCreate] and [AfterMined]. *)
Definition save (campaign : Campaign) (from : string) : process :=
  {| start := save_start campaign; react := save_react campaign from |}.

(** *** cancel *)

Definition cancel_failed : string :=
  "Something went wrong with cancelling your campaign".

Definition update_failed : string :=
  "Something went wrong with updating campaign".

(** One promise given to [Promise.all]. *)
Inductive awaited (A : Type) :=
| NotYet
| Got (a : A)
| Lost.
#[global] Arguments NotYet {A}.
#[global] Arguments Got {A} a.
#[global] Arguments Lost {A}.

Definition not_yet {A} (p : awaited A) : bool :=
  match p with
  | NotYet => true
  | _ => false
  end.

Record cancel_state := CancelState {
  c_vars : vars;
  c_network : awaited network;  (* getNetwork() *)
  c_web3 : awaited handle;      (* getWeb3() *)
  c_all : settle;               (* Promise.all([...]) *)
  c_tx : settle;                (* cancelCampaign(...) *)
  c_patch : settle              (* patch(...) made by the hash handler *)
}.

Definition cancel_start : cancel_state * list effect :=
  (CancelState (Vars None None) NotYet NotYet Pending Unsent Unsent,
   [GetNetwork; GetWeb3]).

(** [then(([network, web3]) => ...)]: wrap the contract at
    [campaign.pluginAddress], remember the explorer, call [cancelCampaign]. *)
Definition cancel_all_then (campaign : Campaign) (from : string)
    (st : cancel_state) (n : network) (w : handle)
  : cancel_state * list effect :=
  (CancelState (Vars (txHash (c_vars st)) (Some (etherscan n)))
     (Got n) (Got w) Settled Pending (c_patch st),
   [CancelCampaign w (pluginAddress campaign) from]).

(** The outer [catch], run by the first rejection. *)
Definition cancel_all_catch (st : cancel_state) (err : error) : list effect :=
  [ErrorPopup cancel_failed (Text (failure_report (c_vars st) err))].

(** The fields of the patch: [{ status: Campaign.CANCELED, mined: false }]. *)
Definition canceled_fields : raw :=
  {[ "status" := Campaign_CANCELED; "mined" := VBool false ]}.

(** [once('transactionHash', hash => ...)]: the argument of [then] is the
    call [afterCreate(link)] itself, evaluated while the chain is built. *)
Definition cancel_transactionHash (campaign : Campaign) (st : cancel_state)
    (hash : string) : cancel_state * list effect :=
  let v := Vars (Some hash) (etherScanUrl (c_vars st)) in
  (CancelState v (c_network st) (c_web3 st) (c_all st) (c_tx st) Pending,
   [Patch "/campaigns" (campaign_id campaign) canceled_fields;
    AfterCreate [VStr (explorer_link v)]]).

Definition cancel_patch_catch (st : cancel_state) (err : error)
  : cancel_state * list effect :=
  (CancelState (c_vars st) (c_network st) (c_web3 st) (c_all st) (c_tx st)
     Settled,
   [ErrorPopup update_failed (Err err)]).

Definition cancel_tx_then (st : cancel_state) : cancel_state * list effect :=
  (CancelState (c_vars st) (c_network st) (c_web3 st) (c_all st) Settled
     (c_patch st),
   [AfterMined [VStr (explorer_link (c_vars st))]]).

Definition cancel_tx_catch (st : cancel_state) (err : error)
  : cancel_state * list effect :=
  (CancelState (c_vars st) (c_network st) (c_web3 st) (c_all st) Settled
     (c_patch st),
   if known_false_failure (c_vars st) err then []
   else [ErrorPopup cancel_failed (Text (failure_report (c_vars st) err))]).

Definition cancel_react (campaign : Campaign) (from : string)
    (st : cancel_state) (ev : event) : option (cancel_state * list effect) :=
  match ev with
  | NetworkResolved n =>
      if not_yet (c_network st) then
        match c_all st, c_web3 st with
        | Pending, Got w => Some (cancel_all_then campaign from st n w)
        | _, _ =>
            Some (CancelState (c_vars st) (Got n) (c_web3 st) (c_all st)
                    (c_tx st) (c_patch st),
                  [])
        end
      else None
  | Web3Resolved w =>
      if not_yet (c_web3 st) then
        match c_all st, c_network st with
        | Pending, Got n => Some (cancel_all_then campaign from st n w)
        | _, _ =>
            Some (CancelState (c_vars st) (c_network st) (Got w) (c_all st)
                    (c_tx st) (c_patch st),
                  [])
        end
      else None
  | NetworkRejected err =>
      if not_yet (c_network st) then
        Some (CancelState (c_vars st) Lost (c_web3 st) Settled (c_tx st)
                (c_patch st),
              if pending (c_all st) then cancel_all_catch st err else [])
      else None
  | Web3Rejected err =>
      if not_yet (c_web3 st) then
        Some (CancelState (c_vars st) (c_network st) Lost Settled (c_tx st)
                (c_patch st),
              if pending (c_all st) then cancel_all_catch st err else [])
      else None
  | TransactionHash hash =>
      match c_tx st, c_patch st with
      | Pending, Unsent => Some (cancel_transactionHash campaign st hash)
      | _, _ => None
      end
  | PatchResolved _ =>
      if pending (c_patch st) then
        Some (CancelState (c_vars st) (c_network st) (c_web3 st) (c_all st)
                (c_tx st) Settled,
              [])
      else None
  | PatchRejected err =>
      if pending (c_patch st) then Some (cancel_patch_catch st err) else None
  | Mined => if pending (c_tx st) then Some (cancel_tx_then st) else None
  | TxRejected err =>
      if pending (c_tx st) then Some (cancel_tx_catch st err) else None
  | _ => None
  end.

(** [cancel(campaign, from, afterCreate, afterMined)]. *)
Definition cancel (campaign : Campaign) (from : string) : process :=
  {| start := cancel_start; react := cancel_react campaign from |}.

End Service.

(** ** Reading a log *)

Section Logs.

Context `{M : Models}.

Definition is_afterCreate (ef : effect) : bool :=
  match ef with
  | AfterCreate _ => true
  | _ => false
  end.

Definition is_afterMined (ef : effect) : bool :=
  match ef with
  | AfterMined _ => true
  | _ => false
  end.


(** A call to a blockchain collaborator. *)
Definition is_blockchain_call (ef : effect) : bool :=
  match ef with
  | GetNetwork | GetWeb3 | NewCampaign _ _ _ _ _ _ | CancelCampaign _ _ _ =>
      true
  | _ => false
  end.

Definition calls_where (p : effect → bool) (x : entry) : bool :=
  match x with
  | Call ef => p ef
  | Recv _ => false
  end.

(** The store answered the patch. *)
Definition patch_completed (x : entry) : bool :=
  match x with
  | Recv (PatchResolved _) => true
  | _ => false
  end.

(** Some entry satisfying [q] comes strictly after one satisfying [p]. *)
Fixpoint follows (p q : entry → bool) (l : list entry) : bool :=
  match l with
  | [] => false
  | x :: l' => (p x && existsb q l') || follows p q l'
  end.

(** How many calls of a log satisfy [p]. *)
Fixpoint times (p : effect → bool) (l : list entry) : nat :=
  match l with
  | [] => 0
  | x :: l' => (if calls_where p x then 1 else 0) + times p l'
  end.



(** The transaction's rejection [err] is reported in state [st]: its handler
    calls the popup with [msg] and the text made of [link] and of the
    serialised error. *)
Definition reported (P : process) (st : state P) (msg link : string)
    (err : error) : Prop :=
  ∃ st',
    react P st (TxRejected err) =
    Some (st', [ErrorPopup msg (Text (link +:+ " => " +:+ json err))]).


(** *** Invariants of the runs of [save] and [cancel]

    [seen] are the events delivered so far. *)

(** How many calls of [afterCreate] a state of [save] can still lead to. *)
Definition afterCreate_left (st : save_state) : nat :=
  match s_create st with
  | Settled => 0
  | _ => 1
  end.





End Logs.

(** ** A concrete model, to run the service on examples

    A Campaign is kept as its raw record; [toFeathers] adds the transaction
    hash when it is given one. *)
Definition text_field (r : raw) (k : string) : string :=
  match r !! k with
  | Some (VStr s) => s
  | _ => ""
  end.

Definition sample_models : Models :=
  {| Campaign := raw;
     Donation := raw;
     new_Campaign r := r;
     new_Campaign_undefined := inr ∅;
     new_Donation r := r;
     Campaign_ACTIVE := VStr "Active";
     Campaign_CANCELED := VStr "Canceled";
     Milestone_CANCELED := VStr "Canceled";
     Milestone_PROPOSED := VStr "proposed";
     Milestone_REJECTED := VStr "rejected";
     Milestone_PENDING := VStr "pending";
     campaign_id r := default VUndefined (r !! "_id");
     title r := text_field r "title";
     reviewerAddress r := text_field r "reviewerAddress";
     pluginAddress r := text_field r "pluginAddress";
     toFeathers r h :=
       match h with
       | Some hash => <["txHash" := VStr hash]> r
       | None => r
       end |}.

Definition draft : @Campaign sample_models :=
  {[ "title" := VStr "T"; "reviewerAddress" := VStr "0xA" ]}.

Definition stored : @Campaign sample_models :=
  {[ "_id" := VStr "c1"; "title" := VStr "T"; "reviewerAddress" := VStr "0xA";
     "pluginAddress" := VStr "0xC" ]}.

Definition ropsten : network :=
  {| lppCampaignFactory := Handle "factory";
     etherscan := "https://ropsten.etherscan.io/" |}.

Definition unknown_tx_error : error :=
  {| message := Some "Error: unknown transaction"; json := "{}" |}.

Definition denied : error :=
  {| message := Some "User denied transaction signature"; json := "{}" |}.

(** ** getUserCampaigns *)

(** An emission that is forwarded whole: its [data] and its other
    fields ([total], [limit], [skip], ...). *)
Record page (A : Type) := Page {
  page_data : list A;
  page_rest : raw
}.
#[global] Arguments Page {A} page_data page_rest.
#[global] Arguments page_data {A} p.
#[global] Arguments page_rest {A} p.

(** A query with an [$or]: a list of alternatives, each a set of field
    constraints, beside the other keys. *)
Record user_query := UserQuery {
  uq_or : list (list (string * constraint));
  uq_rest : query
}.

(** A record satisfies it when it satisfies one alternative and the other
    keys. *)
Definition user_satisfies (q : user_query) (r : raw) : bool :=
  existsb (λ alt, forallb (λ kc, holds kc.2 (r !! kc.1)) alt) (uq_or q) &&
  satisfies (uq_rest q) r.

Section UserCampaigns.

Context `{M : Models}.

(** The calls of [getUserCampaigns]: the watched [find], and the two
    handlers given to [subscribe]; [onSuccess] receives one object. *)
Inductive user_effect :=
| UserWatchFind (service strategy : string) (q : user_query)
| UserOnSuccess (newResp : page Campaign)
| UserOnError (e : error).

Inductive user_event :=
| UserEmission (resp : page raw)
| UserSubscriptionError (e : error).

(** [getUserCampaigns(userAddress, skipPages, itemsPerPage, onSuccess,
    onError)].  Page numbers and sizes are integers, on which the product
    [skipPages * itemsPerPage] is the integer product. *)
Definition getUserCampaigns_query (userAddress : jsval)
    (skipPages itemsPerPage : Z) : user_query :=
  {| uq_or :=
       [[("ownerAddress", Is userAddress)];
        [("reviewerAddress", Is userAddress)]];
     uq_rest :=
       {| q_where := [];
          q_sort := [("createdAt", (-1)%Z)];
          q_limit := Some itemsPerPage;
          q_skip := Some (skipPages * itemsPerPage)%Z |} |}.

Definition getUserCampaigns_start (userAddress : jsval)
    (skipPages itemsPerPage : Z) : user_effect :=
  UserWatchFind "campaigns" "always"
    (getUserCampaigns_query userAddress skipPages itemsPerPage).

(** [Object.assign({}, resp, { data: resp.data.map(c => new Campaign(c)) })]:
    the fields of [resp], with [data] replaced. *)
Definition getUserCampaigns_newResp (resp : page raw) : page Campaign :=
  {| page_data := map new_Campaign (page_data resp);
     page_rest := page_rest resp |}.

Definition getUserCampaigns_react (ev : user_event) : user_effect :=
  match ev with
  | UserEmission resp => UserOnSuccess (getUserCampaigns_newResp resp)
  | UserSubscriptionError e => UserOnError e
  end.

End UserCampaigns.

(** ** More readings of a log *)

Section MoreLogs.

Context `{M : Models}.

Definition is_patch (ef : effect) : bool :=
  match ef with
  | Patch _ _ _ => true
  | _ => false
  end.

Definition is_create (ef : effect) : bool :=
  match ef with
  | Create _ _ => true
  | _ => false
  end.

Definition is_newCampaign (ef : effect) : bool :=
  match ef with
  | NewCampaign _ _ _ _ _ _ => true
  | _ => false
  end.

Definition is_cancelCampaign (ef : effect) : bool :=
  match ef with
  | CancelCampaign _ _ _ => true
  | _ => false
  end.




(** How many calls of the factory, and of the store's [create], a state of
    [save] can still lead to. *)
Definition newCampaign_left (st : save_state) : nat :=
  if pending (s_network st) then 1 else 0.

Definition create_left (st : save_state) : nat :=
  match s_create st with
  | Unsent => 1
  | _ => 0
  end.

(** How many calls of the contract, and of the store's [patch], a state of
    [cancel] can still lead to. *)
Definition cancelCampaign_left (st : cancel_state) : nat :=
  if pending (c_all st) then 1 else 0.

Definition patch_left (st : cancel_state) : nat :=
  match c_patch st with
  | Unsent => 1
  | _ => 0
  end.

(** Where the calls of the create branch of [save] come from, given the
    events [seen]: it never patches, it calls the factory of a network it
    received, and it creates the record serialised with a hash that was
    emitted. *)
Definition save_create_call (campaign : Campaign) (from : string)
    (seen : list event) (ef : effect) : Prop :=
  match ef with
  | Patch _ _ _ => False
  | NewCampaign _ _ _ _ _ _ =>
      ∃ n, NetworkResolved n ∈ seen ∧
           ef = NewCampaign (lppCampaignFactory n) (title campaign) "" 0
                  (reviewerAddress campaign) from
  | Create _ _ =>
      ∃ h, TransactionHash h ∈ seen ∧
           ef = Create "campaigns" (toFeathers campaign (Some h))
  | _ => True
  end.

(** Where the calls of [cancel] on the contract and on the store come from:
    the contract is wrapped around a client that [getWeb3] resolved to,
    after a network was received, and the patch is the one of the hash
    handler. *)
Definition cancel_call (campaign : Campaign) (from : string)
    (seen : list event) (ef : effect) : Prop :=
  match ef with
  | CancelCampaign _ _ _ =>
      ∃ n w, NetworkResolved n ∈ seen ∧ Web3Resolved w ∈ seen ∧
             ef = CancelCampaign w (pluginAddress campaign) from
  | Patch _ _ _ =>
      ef = Patch "/campaigns" (campaign_id campaign) canceled_fields
  | _ => True
  end.

(** The values [Promise.all] holds come from events that were delivered. *)
Definition cancel_got (seen : list event) (st : cancel_state) : Prop :=
  (∀ n, c_network st = Got n → NetworkResolved n ∈ seen) ∧
  (∀ w, c_web3 st = Got w → Web3Resolved w ∈ seen).


End MoreLogs.

(** A model whose Campaign constructor throws on [undefined]. *)
Definition no_record : error :=
  {| message := Some "Cannot read property '_id' of undefined";
     json := "{}" |}.

Definition strict_models : Models :=
  {| Campaign := raw;
     Donation := raw;
     new_Campaign r := r;
     new_Campaign_undefined := inl no_record;
     new_Donation r := r;
     Campaign_ACTIVE := VStr "Active";
     Campaign_CANCELED := VStr "Canceled";
     Milestone_CANCELED := VStr "Canceled";
     Milestone_PROPOSED := VStr "proposed";
     Milestone_REJECTED := VStr "rejected";
     Milestone_PENDING := VStr "pending";
     campaign_id r := default VUndefined (r !! "_id");
     title r := text_field r "title";
     reviewerAddress r := text_field r "reviewerAddress";
     pluginAddress r := text_field r "pluginAddress";
     toFeathers r h :=
       match h with
       | Some hash => <["txHash" := VStr hash]> r
       | None => r
       end |}.

(** * Properties *)

(** ** Strings *)

Lemma prefix_true_iff (p s : string) :
  String.prefix p s = true ↔ ∃ rest, s = p +:+ rest.
Proof.
  revert s. induction p as [|a p IH]; intros [|b s]; simpl.
  - split; [intros _; by exists "" | done].
  - split; [intros _; by exists (String b s) | done].
  - split; [done | intros [rest Hrest]; discriminate].
  - destruct (Ascii.ascii_dec a b) as [->|Hab].
    + rewrite IH. split.
      * intros [rest ->]. by exists rest.
      * intros [rest Hrest]. exists rest. by injection Hrest.
    + split; [done | intros [rest Hrest]; injection Hrest; congruence].
Qed.

Lemma includes_unfold (s sub : string) :
  includes s sub =
  if String.prefix sub s then true
  else match s with
       | EmptyString => false
       | String _ s' => includes s' sub
       end.
Proof. by destruct s. Qed.

(** [includes] is the substring test. *)
Lemma includes_true_iff (s sub : string) :
  includes s sub = true ↔ ∃ before after, s = before +:+ sub +:+ after.
Proof.
  split.
  - induction s as [|c s IH]; rewrite includes_unfold;
      match goal with |- context [String.prefix sub ?t] =>
        destruct (String.prefix sub t) eqn:Hp end.
    + intros _. apply prefix_true_iff in Hp as [rest Hrest].
      by exists "", rest.
    + done.
    + intros _. apply prefix_true_iff in Hp as [rest Hrest].
      by exists "", rest.
    + intros Hin. destruct (IH Hin) as (before & after & ->).
      by exists (String c before), after.
  - intros (before & after & ->).
    induction before as [|c before IH]; rewrite includes_unfold.
    + assert (String.prefix sub (sub +:+ after) = true) as Hp
        by (apply prefix_true_iff; eauto).
      change ("" +:+ sub +:+ after) with (sub +:+ after). by rewrite Hp.
    + change (String c before +:+ sub +:+ after)
        with (String c (before +:+ sub +:+ after)).
      by destruct (String.prefix sub (String c (before +:+ sub +:+ after))).
Qed.

(** A message that includes a non-empty text is not the empty string, so it
    is truthy. *)
Lemma includes_truthy (m sub : string) :
  sub ≠ "" → includes m sub = true → truthy_var (Some m) = true.
Proof.
  intros Hsub Hin. destruct m as [|c m]; [|done].
  simpl in Hin. destruct sub; [done | discriminate].
Qed.

Lemma truthy_var_Some (h : string) : h ≠ "" → truthy_var (Some h) = true.
Proof. intros Hh. destruct h; [done | reflexivity]. Qed.

(** The guard of the transaction's [catch] holds exactly for an error whose
    message includes the text, once [txHash] holds a hash. *)
Lemma known_false_failure_true (v : vars) (err : error) (h m : string) :
  txHash v = Some h → h ≠ "" → message err = Some m →
  includes m "unknown transaction" = true →
  known_false_failure v err = true.
Proof.
  intros Hh Hne Hm Hin. unfold known_false_failure.
  rewrite Hh, Hm, Hin, (truthy_var_Some h Hne).
  by rewrite (includes_truthy m "unknown transaction").
Qed.


(** ** Runs *)

Section Runs.

Context `{M : Models}.

Lemma log_from_app (P : process) (st : state P) (evs evs' : list event) :
  log_from P st (evs ++ evs') =
  log_from P st evs ++ log_from P (state_from P st evs) evs'.
Proof.
  revert st. induction evs as [|ev evs IH]; intros st; simpl; [done|].
  destruct (react P st ev) as [[st' out]|]; [|apply IH].
  rewrite IH. simpl. by rewrite app_assoc.
Qed.

Lemma state_from_app (P : process) (st : state P) (evs evs' : list event) :
  state_from P st (evs ++ evs') = state_from P (state_from P st evs) evs'.
Proof.
  revert st. induction evs as [|ev evs IH]; intros st; simpl; [done|].
  destruct (react P st ev) as [[st' out]|]; apply IH.
Qed.

(** Nothing happens in a state where no handler is waiting. *)
Lemma log_from_idle (P : process) (st : state P) (evs : list event) :
  (∀ ev, react P st ev = None) → log_from P st evs = [].
Proof.
  intros Hidle. induction evs as [|ev evs IH]; simpl; [done|].
  by rewrite Hidle.
Qed.

Lemma calls_app (l l' : list entry) : calls (l ++ l') = calls l ++ calls l'.
Proof. apply omap_app. Qed.

Lemma calls_map_Call (out : list effect) : calls (map Call out) = out.
Proof. induction out as [|ef out IH]; simpl; [done|]. by rewrite IH. Qed.

(** [follows p q l] holds exactly when [l] has an entry satisfying [p] and,
    somewhere after it, an entry satisfying [q]. *)
Lemma follows_true_iff (p q : entry → bool) (l : list entry) :
  follows p q l = true ↔
  ∃ l1 x l2 y l3,
    l = l1 ++ x :: l2 ++ y :: l3 ∧ p x = true ∧ q y = true.
Proof.
  split.
  - induction l as [|x l IH]; simpl; [done|].
    intros [[Hp Hq]%andb_true_iff|Hlater]%orb_true_iff.
    + apply existsb_exists in Hq as (y & Hy & Hqy).
      apply in_split in Hy as (l2 & l3 & ->).
      by exists [], x, l2, y, l3.
    + destruct (IH Hlater) as (l1 & x' & l2 & y & l3 & -> & Hp & Hq).
      by exists (x :: l1), x', l2, y, l3.
  - intros (l1 & x & l2 & y & l3 & -> & Hp & Hq).
    induction l1 as [|a l1 IH]; simpl.
    + rewrite Hp, existsb_app. simpl. rewrite Hq.
      by rewrite orb_true_r.
    + rewrite IH. by rewrite orb_true_r.
Qed.

Lemma existsb_map_Call (p : effect → bool) (out : list effect) :
  existsb (calls_where p) (map Call out) = existsb p out.
Proof. induction out as [|ef out IH]; simpl; [done|]. by rewrite IH. Qed.

End Runs.

(** ** Queries *)

Lemma holds_Is (v : jsval) (field : option jsval) :
  holds (Is v) field = true ↔ field = Some v.
Proof.
  destruct field as [x|]; simpl; [|done].
  rewrite bool_decide_eq_true. split; congruence.
Qed.

Lemma holds_Gt (b : Z) (field : option jsval) :
  holds (Gt (VNum b)) field = true ↔ ∃ a, field = Some (VNum a) ∧ (b < a)%Z.
Proof.
  destruct field as [x|]; simpl.
  - destruct x as [| |c|a|s]; simpl;
      try (split; [done | intros (a' & Ha & _); discriminate]).
    rewrite Z.ltb_lt. split.
    + intros Hlt. by exists a.
    + intros (a' & Ha & Hlt). by injection Ha as ->.
  - split; [done | intros (a & Ha & _); discriminate].
Qed.

Lemma holds_Nin (vs : list jsval) (field : option jsval) :
  holds (Nin vs) field = true ↔ ∀ x, field = Some x → x ∉ vs.
Proof.
  destruct field as [x|]; simpl.
  - rewrite bool_decide_eq_true. split.
    + intros Hx y Hy. by injection Hy as <-.
    + intros Hall. by apply Hall.
  - split; [intros _ x Hx; discriminate | done].
Qed.

Lemma satisfies_two (q : query) (r : raw) (k1 k2 : string)
    (c1 c2 : constraint) :
  q_where q = [(k1, c1); (k2, c2)] →
  satisfies q r = true ↔
  holds c1 (r !! k1) = true ∧ holds c2 (r !! k2) = true.
Proof.
  intros Hq. unfold satisfies. rewrite Hq. simpl.
  rewrite andb_true_r. apply andb_true_iff.
Qed.

(** ** Read operations *)

Section Reads.

Context `{M : Models}.

(** A record matches the query of [getCampaigns] exactly when its project id
    is a positive number and its status is Active. *)
Lemma getCampaigns_query_satisfies (limit skip : option Z) (r : raw) :
  satisfies (getCampaigns_query limit skip) r = true ↔
  (∃ p, r !! "projectId" = Some (VNum p) ∧ (0 < p)%Z) ∧
  r !! "status" = Some Campaign_ACTIVE.
Proof.
  rewrite (satisfies_two _ r "projectId" "status" (Gt (VNum 0))
             (Is Campaign_ACTIVE)); [|done].
  by rewrite holds_Gt, holds_Is.
Qed.

(** C5. [getCampaigns] asks the store for the campaigns whose project id is
    greater than 0 and whose status is Active, newest first, [$limit]
    defaulting to 100 and [$skip] to 0.  When the [find] resolves,
    [onSuccess] receives the records mapped in order into Campaign objects,
    and the total; when it rejects, [onError] receives the failure. *)
Theorem getCampaigns_lists_active_campaigns (limit skip : option Z) :
  let q :=
    {| q_where := [("projectId", Gt (VNum 0)); ("status", Is Campaign_ACTIVE)];
       q_sort := [("createdAt", (-1)%Z)];
       q_limit := Some (match limit with Some l => l | None => 100%Z end);
       q_skip := Some (match skip with Some s => s | None => 0%Z end) |} in
  (start (getCampaigns limit skip)).2 = [Find "campaigns" q] ∧
  (∀ r : raw,
     satisfies q r = true ↔
     (∃ p, r !! "projectId" = Some (VNum p) ∧ (0 < p)%Z) ∧
     r !! "status" = Some Campaign_ACTIVE) ∧
  (∀ resp,
     log (getCampaigns limit skip) [FindResolved resp] =
     [Call (Find "campaigns" q); Recv (FindResolved resp);
      Call (OnSuccessCampaigns (map new_Campaign (data resp)) (total resp))]) ∧
  (∀ resp (i : nat),
     map new_Campaign (data resp) !! i = new_Campaign <$> data resp !! i) ∧
  (∀ e,
     log (getCampaigns limit skip) [FindRejected e] =
     [Call (Find "campaigns" q); Recv (FindRejected e); Call (OnError e)]).
Proof.
  intros q.
  assert (getCampaigns_query limit skip = q) as Hq
    by (by destruct limit, skip).
  split_and!.
  - simpl. by rewrite Hq.
  - intros r. rewrite <- Hq. apply getCampaigns_query_satisfies.
  - intros resp. unfold log. simpl. by rewrite Hq.
  - intros resp i. apply list_lookup_fmap.
  - intros e. unfold log. simpl. by rewrite Hq.
Qed.

(** A record matches the query of [getMilestones] exactly when it belongs
    to the campaign and its status, if any, is none of the four excluded. *)
Lemma getMilestones_query_satisfies (id : jsval) (limit skip : option Z)
    (r : raw) :
  satisfies (getMilestones_query id limit skip) r = true ↔
  r !! "campaignId" = Some id ∧
  ∀ s, r !! "status" = Some s →
       s ∉ [Milestone_CANCELED; Milestone_PROPOSED; Milestone_REJECTED;
            Milestone_PENDING].
Proof.
  rewrite (satisfies_two _ r "campaignId" "status" (Is id)
             (Nin [Milestone_CANCELED; Milestone_PROPOSED; Milestone_REJECTED;
                   Milestone_PENDING])); [|done].
  by rewrite holds_Is, holds_Nin.
Qed.

(** C6. [getMilestones] asks the store for the milestones of the campaign
    whose status is not Canceled, Proposed, Rejected or Pending, newest
    first; when the [find] resolves, [onSuccess] receives the records as
    they came, unwrapped, and the total. *)
Theorem getMilestones_lists_raw_records (id : jsval) (limit skip : option Z) :
  let q := getMilestones_query id limit skip in
  (start (getMilestones id limit skip)).2 = [Find "milestones" q] ∧
  (∀ r : raw,
     satisfies q r = true ↔
     r !! "campaignId" = Some id ∧
     r !! "status" ≠ Some Milestone_CANCELED ∧
     r !! "status" ≠ Some Milestone_PROPOSED ∧
     r !! "status" ≠ Some Milestone_REJECTED ∧
     r !! "status" ≠ Some Milestone_PENDING) ∧
  q_sort q = [("createdAt", (-1)%Z)] ∧
  (∀ resp,
     log (getMilestones id limit skip) [FindResolved resp] =
     [Call (Find "milestones" q); Recv (FindResolved resp);
      Call (OnSuccessRecords (data resp) (total resp))]).
Proof.
  intros q. split_and!; try done.
  intros r. unfold q. rewrite getMilestones_query_satisfies.
  split.
  - intros [Hid Hst]. split; [done|].
    split_and!; intros Heq; apply (Hst _ Heq);
      rewrite !elem_of_cons; tauto.
  - intros (Hid & H1 & H2 & H3 & H4). split; [done|].
    intros s Hs. rewrite !not_elem_of_cons.
    split_and!; try congruence. apply not_elem_of_nil.
Qed.

(** A record matches the query of [subscribeDonations] exactly when it
    belongs to the campaign and its [isReturn] flag is [false]. *)
Lemma subscribeDonations_query_satisfies (id : jsval) (r : raw) :
  satisfies (subscribeDonations_query id) r = true ↔
  r !! "campaignId" = Some id ∧ r !! "isReturn" = Some (VBool false).
Proof.
  rewrite (satisfies_two _ r "campaignId" "isReturn" (Is id)
             (Is (VBool false))); [|done].
  by rewrite !holds_Is.
Qed.

(** Every emission of the subscription is delivered, whatever came before. *)
Lemma subscribeDonations_emissions (id : jsval) (resps : list response) :
  calls (log_from (subscribeDonations id) tt (map Emission resps)) =
  map (λ resp, OnSuccessDonations (map new_Donation (data resp))) resps.
Proof.
  induction resps as [|resp resps IH]; simpl; [done|].
  by rewrite IH.
Qed.

(** C7. [subscribeDonations] opens a watched [find] on the donations of the
    campaign whose [isReturn] flag is [false], newest first; every emission
    hands the whole list, mapped into Donation objects, to [onSuccess], a
    failure goes to [onError], and the caller gets the subscription. *)
Theorem subscribeDonations_delivers_every_emission (id : jsval) :
  let q := subscribeDonations_query id in
  let opened :=
    WatchFind "donations" "always" q (Some "includeTypeAndGiverDetails") in
  (start (subscribeDonations id)).2 = [opened] ∧
  (∀ r : raw,
     satisfies q r = true ↔
     r !! "campaignId" = Some id ∧ r !! "isReturn" = Some (VBool false)) ∧
  q_sort q = [("createdAt", (-1)%Z)] ∧
  (∀ st resp,
     react (subscribeDonations id) st (Emission resp) =
     Some (st, [OnSuccessDonations (map new_Donation (data resp))])) ∧
  (∀ resps,
     calls (log (subscribeDonations id) (map Emission resps)) =
     opened ::
     map (λ resp, OnSuccessDonations (map new_Donation (data resp))) resps) ∧
  (∀ st e,
     react (subscribeDonations id) st (SubscriptionError e) =
     Some (st, [OnError e])) ∧
  (∀ subscribe, subscribeDonations_returns subscribe id = subscribe opened).
Proof.
  intros q opened. split_and!; try done.
  - apply subscribeDonations_query_satisfies.
  - by intros [] resp.
  - intros resps. unfold log. rewrite calls_app. simpl.
    by rewrite subscribeDonations_emissions.
  - by intros [] e.
Qed.

(** A record matches the query of [get] exactly when its [_id] is the
    requested id. *)
Lemma get_query_satisfies (id : jsval) (r : raw) :
  satisfies (get_query id) r = true ↔ r !! "_id" = Some id.
Proof.
  unfold satisfies. simpl. rewrite andb_true_r. apply holds_Is.
Qed.

(** C8. [get] asks the store for the records whose [_id] is the requested
    id.  When the [find] resolves with at least one record, the promise
    resolves with the Campaign built from the first one; when the [find]
    rejects, the promise rejects with that very failure. *)
Theorem get_resolves_first_record (id : jsval) (resp : response) (r : raw) :
  data resp !! 0%nat = Some r →
  (start (get id)).2 = [Find "campaigns" (get_query id)] ∧
  (∀ r' : raw, satisfies (get_query id) r' = true ↔ r' !! "_id" = Some id) ∧
  log (get id) [FindResolved resp] =
  [Call (Find "campaigns" (get_query id)); Recv (FindResolved resp);
   Call (Resolve (new_Campaign r))] ∧
  (∀ e,
     log (get id) [FindRejected e] =
     [Call (Find "campaigns" (get_query id)); Recv (FindRejected e);
      Call (Reject e)]).
Proof.
  intros Hr. split_and!; try done.
  - apply get_query_satisfies.
  - unfold log. simpl. unfold get_then. by rewrite Hr.
Qed.

(** The promise of [get] settles once. *)
Lemma get_settles_once (id : jsval) (ev : event) (evs : list event)
    (out : list effect) :
  react (get id) Waiting ev = Some (Answered, out) →
  log (get id) (ev :: evs) =
  Call (Find "campaigns" (get_query id)) :: Recv ev :: map Call out.
Proof.
  intros Hev. unfold log. cbn [start get snd fst map app log_from].
  cbn [react get] in *. rewrite Hev.
  rewrite (log_from_idle (get id) Answered); [by rewrite app_nil_r | done].
Qed.


(** X14. Should the constructor throw on [undefined], the [catch] of [get]
    rejects with what it threw. *)
Lemma get_empty_result_constructor_throws (id : jsval) (resp : response)
    (thrown : error) (evs : list event) :
  data resp = [] →
  new_Campaign_undefined = inl thrown →
  log (get id) (FindResolved resp :: evs) =
  [Call (Find "campaigns" (get_query id)); Recv (FindResolved resp);
   Call (Reject thrown)].
Proof.
  intros Hdata Hnew. apply (get_settles_once id _ evs [Reject thrown]).
  simpl. unfold get_then. rewrite Hdata. simpl. by rewrite Hnew.
Qed.

End Reads.

(** ** save *)

Section Save.

Context `{M : Models}.

Implicit Types (campaign : Campaign) (from : string) (st : save_state).

(** Case analysis on a reaction of [save]. *)
Ltac save_cases st ev :=
  destruct st as [[hash url] [] [] [] []], ev;
  simpl; try discriminate; try done.

(** *** The update branch *)

(** The state of the update branch once the patch is answered: no handler
    is left. *)
Lemma save_patch_answered_idle campaign from (v : vars) (ev : event) :
  react (save campaign from) (SaveState v Settled Unsent Unsent Unsent) ev
  = None.
Proof. by destruct ev. Qed.

(** While the patch is awaited, only its answer is handled. *)
Lemma save_update_log campaign from (evs : list event) :
  let l :=
    log_from (save campaign from)
      (SaveState (Vars None None) Pending Unsent Unsent Unsent) evs in
  l = [] ∨
  (∃ v, l = [Recv (PatchResolved v); Call (AfterMined [])]) ∨
  (∃ e, l = [Recv (PatchRejected e)]).
Proof.
  induction evs as [|ev evs IH]; [by left|].
  destruct ev; try exact IH; right; [left|right]; eexists;
    cbn [log_from react save save_react pending s_patch s_vars s_network
         s_tx s_create map app];
    rewrite (log_from_idle (save campaign from)); try done;
    apply save_patch_answered_idle.
Qed.

(** C2. For a campaign that has an id, [save] only patches the record of
    that id with [campaign.toFeathers()]: in no run does it call the
    network, the factory or any other collaborator, and when the patch
    resolves it calls [afterMined] without arguments. *)
Theorem save_update_only_patches campaign from :
  truthy (campaign_id campaign) = true →
  let patch :=
    Patch "campaigns" (campaign_id campaign) (toFeathers campaign None) in
  (start (save campaign from)).2 = [patch] ∧
  (∀ evs,
     Forall (λ ef, ef = patch ∨ ef = AfterMined [])
       (calls (log (save campaign from) evs))) ∧
  (∀ evs,
     existsb is_blockchain_call (calls (log (save campaign from) evs))
     = false) ∧
  (∀ v evs,
     log (save campaign from) (PatchResolved v :: evs) =
     [Call patch; Recv (PatchResolved v); Call (AfterMined [])]).
Proof.
  intros Hid patch.
  assert (start (save campaign from) =
          (SaveState (Vars None None) Pending Unsent Unsent Unsent, [patch]))
    as Hstart by (simpl; unfold save_start; by rewrite Hid).
  split_and!.
  - by rewrite Hstart.
  - intros evs. unfold log. rewrite Hstart. simpl.
    destruct (save_update_log campaign from evs) as [->|[[v ->]|[e ->]]];
      simpl; repeat (apply List.Forall_cons; [by auto|]);
      apply List.Forall_nil.
  - intros evs. unfold log. rewrite Hstart. simpl.
    by destruct (save_update_log campaign from evs) as [->|[[v ->]|[e ->]]].
  - intros v evs. unfold log. rewrite Hstart.
    cbn [log_from react save save_react pending s_patch s_vars s_network
         s_tx s_create map app fst snd].
    rewrite (log_from_idle (save campaign from)); [done|].
    apply save_patch_answered_idle.
Qed.

(** C10. In the update branch a rejected patch is handled by nobody:
    [afterMined] is not called, nothing is reported, and nothing else
    happens in the rest of the run. *)
Theorem save_update_patch_rejection_unhandled campaign from (e : error)
    (evs : list event) :
  truthy (campaign_id campaign) = true →
  log (save campaign from) (PatchRejected e :: evs) =
  [Call (Patch "campaigns" (campaign_id campaign) (toFeathers campaign None));
   Recv (PatchRejected e)].
Proof.
  intros Hid. unfold log.
  assert (start (save campaign from) =
          (SaveState (Vars None None) Pending Unsent Unsent Unsent,
           [Patch "campaigns" (campaign_id campaign)
              (toFeathers campaign None)]))
    as -> by (simpl; unfold save_start; by rewrite Hid).
  cbn [log_from react save save_react pending s_patch s_vars s_network
       s_tx s_create map app fst snd].
  rewrite (log_from_idle (save campaign from)); [done|].
  apply save_patch_answered_idle.
Qed.

(** *** The create branch *)

Lemma times_app (p : effect → bool) (l l' : list entry) :
  times p (l ++ l') = times p l + times p l'.
Proof. induction l as [|x l IH]; simpl; [done|]. rewrite IH. lia. Qed.

(** A reaction of [save] calls [afterCreate] only by using up the one
    [create] whose answer is awaited. *)
Lemma save_step_afterCreate campaign from st (ev : event) st'
    (out : list effect) :
  react (save campaign from) st ev = Some (st', out) →
  times is_afterCreate (map Call out) + afterCreate_left st'
  ≤ afterCreate_left st.
Proof.
  save_cases st ev; intros [= <- <-]; unfold afterCreate_left; simpl;
    try lia.
  all: destruct (known_false_failure _ _); simpl; lia.
Qed.

Lemma save_afterCreate_bounded campaign from (evs : list event) st :
  times is_afterCreate (log_from (save campaign from) st evs)
  ≤ afterCreate_left st.
Proof.
  revert st. induction evs as [|ev evs IH]; intros st.
  - simpl. lia.
  - cbn [log_from].
    destruct (react (save campaign from) st ev) as [[st' out]|] eqn:Hev;
      [|apply IH].
    apply save_step_afterCreate in Hev. specialize (IH st').
    cbn [times calls_where]. rewrite times_app. lia.
Qed.

(** Corrected C4. For a campaign without an id, [save] asks for the network
    and calls the factory with the title, an empty url, parent project 0
    and the reviewer, as the sender.  When the hash is emitted, the store's
    [create] resolves and then the transaction is mined, [afterCreate] is
    called with the explorer link and the value the [create] resolved to,
    before [afterMined] is called with the same link.  In no run is
    [afterCreate] called more than once. *)
Theorem save_create_then_mined campaign from (n : network) (h : string)
    (id : jsval) :
  truthy (campaign_id campaign) = false →
  let link := VStr (etherscan n +:+ "tx/" +:+ h) in
  log (save campaign from)
    [NetworkResolved n; TransactionHash h; CreateResolved id; Mined] =
  [Call GetNetwork;
   Recv (NetworkResolved n);
   Call (NewCampaign (lppCampaignFactory n) (title campaign) "" 0
           (reviewerAddress campaign) from);
   Recv (TransactionHash h);
   Call (Create "campaigns" (toFeathers campaign (Some h)));
   Recv (CreateResolved id);
   Call (AfterCreate [link; id]);
   Recv Mined;
   Call (AfterMined [link])] ∧
  ∀ evs, times is_afterCreate (log (save campaign from) evs) ≤ 1.
Proof.
  intros Hid link.
  assert (start (save campaign from) =
          (SaveState (Vars None None) Unsent Pending Unsent Unsent,
           [GetNetwork]))
    as Hstart by (simpl; unfold save_start; by rewrite Hid).
  split.
  - unfold log. by rewrite Hstart.
  - intros evs. unfold log. rewrite Hstart, times_app.
    pose proof (save_afterCreate_bounded campaign from evs
                  (SaveState (Vars None None) Unsent Pending Unsent Unsent))
      as Hle.
    unfold afterCreate_left in Hle. simpl in *. lia.
Qed.

(** *** The invariant *)









End Save.

(** ** cancel *)

Section Cancel.

Context `{M : Models}.

Implicit Types (campaign : Campaign) (from : string) (st : cancel_state).

(** Case analysis on a reaction of [cancel]. *)
Ltac cancel_cases st ev :=
  destruct st as [[hash url] [|n0|] [|w0|] [] [] []], ev;
  simpl; try discriminate; try done.

(** *** The order of the patch and of [afterCreate] *)

(** [afterCreate] is called by the hash handler alone, which runs before
    any patch is made. *)
Lemma cancel_patched_step campaign from st (ev : event) st'
    (out : list effect) :
  c_patch st ≠ Unsent →
  react (cancel campaign from) st ev = Some (st', out) →
  c_patch st' ≠ Unsent ∧ existsb is_afterCreate out = false.
Proof.
  cancel_cases st ev; intros Hpatch [= <- <-]; simpl; try done.
  all: by destruct (known_false_failure _ _).
Qed.

Lemma cancel_patched_run campaign from (evs : list event) st :
  c_patch st ≠ Unsent →
  existsb (calls_where is_afterCreate) (log_from (cancel campaign from) st evs)
  = false.
Proof.
  revert st. induction evs as [|ev evs IH]; intros st Hpatch; [done|].
  cbn [log_from].
  destruct (react (cancel campaign from) st ev) as [[st' out]|] eqn:Hev;
    [|by apply IH].
  destruct (cancel_patched_step campaign from st ev st' out Hpatch Hev)
    as [Hpatch' Hout].
  cbn [existsb calls_where]. rewrite existsb_app, existsb_map_Call, Hout.
  by rewrite IH.
Qed.

(** The answer of the patch is only delivered once the patch was made. *)
Lemma cancel_patch_completed_step campaign from st (ev : event) st'
    (out : list effect) :
  react (cancel campaign from) st ev = Some (st', out) →
  patch_completed (Recv ev) = true →
  c_patch st' ≠ Unsent ∧ out = [].
Proof. cancel_cases st ev; by intros [= <- <-]. Qed.

Lemma follows_calls (q : entry → bool) (out : list effect) (l : list entry) :
  follows patch_completed q (map Call out ++ l) = follows patch_completed q l.
Proof. induction out as [|ef out IH]; simpl; done. Qed.

Lemma cancel_afterCreate_never_follows campaign from (evs : list event) st :
  follows patch_completed (calls_where is_afterCreate)
    (log_from (cancel campaign from) st evs) = false.
Proof.
  revert st. induction evs as [|ev evs IH]; intros st; [done|].
  cbn [log_from].
  destruct (react (cancel campaign from) st ev) as [[st' out]|] eqn:Hev;
    [|by apply IH].
  cbn [follows]. rewrite follows_calls, IH, orb_false_r.
  destruct (patch_completed (Recv ev)) eqn:Hcompleted; [|done].
  destruct (cancel_patch_completed_step campaign from st ev st' out Hev
              Hcompleted) as [Hpatch ->].
  simpl. by apply cancel_patched_run.
Qed.

(** C1, as the code has it.  When the hash is emitted, [cancel] asks the
    store to patch the record to Canceled with [mined] false and calls
    [afterCreate] with the explorer link at once, while the [then] chain is
    built: the patch has not been answered yet, and [afterCreate] has been
    called all the same when the patch is rejected.  In no run does a call of
    [afterCreate] come after the answer of the patch. *)
Theorem cancel_afterCreate_does_not_await_patch campaign from (n : network)
    (w : handle) (h : string) :
  let link := VStr (etherscan n +:+ "tx/" +:+ h) in
  let patch :=
    Patch "/campaigns" (campaign_id campaign)
      {[ "status" := Campaign_CANCELED; "mined" := VBool false ]} in
  (∀ v,
     log (cancel campaign from)
       [NetworkResolved n; Web3Resolved w; TransactionHash h;
        PatchResolved v] =
     [Call GetNetwork; Call GetWeb3;
      Recv (NetworkResolved n); Recv (Web3Resolved w);
      Call (CancelCampaign w (pluginAddress campaign) from);
      Recv (TransactionHash h);
      Call patch; Call (AfterCreate [link]);
      Recv (PatchResolved v)]) ∧
  (∀ e,
     log (cancel campaign from)
       [NetworkResolved n; Web3Resolved w; TransactionHash h;
        PatchRejected e] =
     [Call GetNetwork; Call GetWeb3;
      Recv (NetworkResolved n); Recv (Web3Resolved w);
      Call (CancelCampaign w (pluginAddress campaign) from);
      Recv (TransactionHash h);
      Call patch; Call (AfterCreate [link]);
      Recv (PatchRejected e); Call (ErrorPopup update_failed (Err e))]) ∧
  (∀ evs,
     follows patch_completed (calls_where is_afterCreate)
       (log (cancel campaign from) evs) = false).
Proof.
  intros link patch. split_and!; [done | done |].
  intros evs. unfold log. simpl. apply cancel_afterCreate_never_follows.
Qed.

(** *** The invariant *)









End Cancel.

(** ** The rejection rule of both mutations *)


(** ** The service on concrete runs *)

Section Samples.

#[local] Existing Instance sample_models.

Lemma getCampaigns_sample :
  satisfies (getCampaigns_query (Some 10%Z) (Some 0%Z))
    {[ "projectId" := VNum 7; "status" := VStr "Active" ]} = true ∧
  satisfies (getCampaigns_query (Some 10%Z) (Some 0%Z))
    {[ "projectId" := VNum 0; "status" := VStr "Active" ]} = false ∧
  satisfies (getCampaigns_query (Some 10%Z) (Some 0%Z))
    {[ "projectId" := VNum 7; "status" := VStr "Canceled" ]} = false.
Proof. by vm_compute. Qed.

Lemma save_update_only_patches_witness :
  truthy (campaign_id stored) = true ∧
  log (save stored "0xFrom") [PatchResolved VUndefined] =
  [Call (Patch "campaigns" (VStr "c1") stored);
   Recv (PatchResolved VUndefined);
   Call (AfterMined [])].
Proof.
  assert (truthy (campaign_id stored) = true) as Hid
    by reflexivity.
  split; [exact Hid|].
  destruct (save_update_only_patches stored "0xFrom" Hid)
    as (_ & _ & _ & Hlog).
  apply (Hlog VUndefined []).
Defined.

Lemma save_update_patch_rejection_unhandled_witness :
  truthy (campaign_id stored) = true ∧
  log (save stored "0xFrom") [PatchRejected denied; Mined] =
  [Call (Patch "campaigns" (VStr "c1") stored); Recv (PatchRejected denied)].
Proof.
  assert (truthy (campaign_id stored) = true) as Hid
    by reflexivity.
  split; [exact Hid|].
  apply (save_update_patch_rejection_unhandled stored "0xFrom"
           denied [Mined] Hid).
Defined.

Lemma save_create_then_mined_witness :
  truthy (campaign_id draft) = false ∧
  calls
    (log (save draft "0xFrom")
       [NetworkResolved ropsten; TransactionHash "0xH";
        CreateResolved (VStr "id1"); Mined]) =
  [GetNetwork;
   NewCampaign (Handle "factory") "T" "" 0 "0xA" "0xFrom";
   Create "campaigns" (<["txHash" := VStr "0xH"]> draft);
   AfterCreate [VStr "https://ropsten.etherscan.io/tx/0xH"; VStr "id1"];
   AfterMined [VStr "https://ropsten.etherscan.io/tx/0xH"]].
Proof.
  assert (truthy (campaign_id draft) = false) as Hid
    by reflexivity.
  split; [exact Hid|].
  destruct (save_create_then_mined draft "0xFrom" ropsten "0xH"
              (VStr "id1") Hid) as [Hlog _].
  rewrite Hlog. reflexivity.
Defined.

(** C4 as written fails: the transaction may be mined while the [create] is
    still awaited, and then [afterMined] is called first, no call of
    [afterCreate] coming before it. *)
Lemma save_afterMined_before_afterCreate :
  let l :=
    log (save draft "0xFrom")
      [NetworkResolved ropsten; TransactionHash "0xH"; Mined;
       CreateResolved (VStr "id1")] in
  calls l =
  [GetNetwork;
   NewCampaign (Handle "factory") "T" "" 0 "0xA" "0xFrom";
   Create "campaigns" (<["txHash" := VStr "0xH"]> draft);
   AfterMined [VStr "https://ropsten.etherscan.io/tx/0xH"];
   AfterCreate [VStr "https://ropsten.etherscan.io/tx/0xH"; VStr "id1"]] ∧
  follows (calls_where is_afterCreate) (calls_where is_afterMined) l = false.
Proof. split; reflexivity. Qed.

(** When the [create] is rejected, [afterCreate] is not called at all. *)
Lemma save_create_rejected_no_afterCreate :
  calls
    (log (save draft "0xFrom")
       [NetworkResolved ropsten; TransactionHash "0xH";
        CreateRejected denied; Mined]) =
  [GetNetwork;
   NewCampaign (Handle "factory") "T" "" 0 "0xA" "0xFrom";
   Create "campaigns" (<["txHash" := VStr "0xH"]> draft);
   AfterMined [VStr "https://ropsten.etherscan.io/tx/0xH"]].
Proof. reflexivity. Qed.

(** An ignored rejection in [save]: nothing is reported and [afterMined] is
    not called; the [create] made by the hash handler is still answered. *)
Lemma save_unknown_transaction_sample :
  calls
    (log (save draft "0xFrom")
       [NetworkResolved ropsten; TransactionHash "0xH";
        TxRejected unknown_tx_error; CreateResolved (VStr "id1"); Mined]) =
  [GetNetwork;
   NewCampaign (Handle "factory") "T" "" 0 "0xA" "0xFrom";
   Create "campaigns" (<["txHash" := VStr "0xH"]> draft);
   AfterCreate [VStr "https://ropsten.etherscan.io/tx/0xH"; VStr "id1"]].
Proof. reflexivity. Qed.

(** The same error before any hash is reported. *)
Lemma save_rejected_before_hash_sample :
  calls
    (log (save draft "0xFrom")
       [NetworkResolved ropsten; TxRejected unknown_tx_error]) =
  [GetNetwork;
   NewCampaign (Handle "factory") "T" "" 0 "0xA" "0xFrom";
   ErrorPopup save_failed
     (Text "https://ropsten.etherscan.io/tx/undefined => {}")].
Proof. reflexivity. Qed.

(** [cancel] on a stored campaign whose patch is rejected: [afterCreate]
    was called before the store answered. *)
Lemma cancel_patch_rejected_sample :
  log (cancel stored "0xFrom")
    [NetworkResolved ropsten; Web3Resolved (Handle "web3");
     TransactionHash "0xH"; PatchRejected denied; Mined] =
  [Call GetNetwork; Call GetWeb3;
   Recv (NetworkResolved ropsten); Recv (Web3Resolved (Handle "web3"));
   Call (CancelCampaign (Handle "web3") "0xC" "0xFrom");
   Recv (TransactionHash "0xH");
   Call (Patch "/campaigns" (VStr "c1")
           {[ "status" := VStr "Canceled"; "mined" := VBool false ]});
   Call (AfterCreate [VStr "https://ropsten.etherscan.io/tx/0xH"]);
   Recv (PatchRejected denied);
   Call (ErrorPopup update_failed (Err denied));
   Recv Mined;
   Call (AfterMined [VStr "https://ropsten.etherscan.io/tx/0xH"])].
Proof. reflexivity. Qed.

Lemma get_resolves_first_record_witness :
  log (get (VStr "c1")) [FindResolved (Response [stored] 1)] =
  [Call (Find "campaigns" (get_query (VStr "c1")));
   Recv (FindResolved (Response [stored] 1));
   Call (Resolve stored)].
Proof.
  destruct (get_resolves_first_record (VStr "c1") (Response [stored] 1)
              stored eq_refl) as (_ & _ & Hlog & _).
  exact Hlog.
Defined.



End Samples.

(** * Further properties *)

(** ** The guard of the transaction's [catch] *)

(** X3. The guard holds exactly when [txHash] holds a non-empty hash and the
    error has a message in which "unknown transaction" occurs, in this
    very spelling. *)
Theorem known_false_failure_iff (v : vars) (err : error) :
  known_false_failure v err = true ↔
  ∃ h m before after,
    txHash v = Some h ∧ h ≠ "" ∧ message err = Some m ∧
    m = before +:+ "unknown transaction" +:+ after.
Proof.
  split.
  - unfold known_false_failure.
    destruct (txHash v) as [h|]; [|done].
    destruct (message err) as [m|]; [|by rewrite andb_false_r].
    intros [[Hh _]%andb_true_iff Hin]%andb_true_iff.
    apply includes_true_iff in Hin as (before & after & ->).
    exists h, (before +:+ "unknown transaction" +:+ after), before, after.
    split_and!; try done. intros ->. discriminate.
  - intros (h & m & before & after & Hh & Hne & Hm & ->).
    apply (known_false_failure_true v err h _ Hh Hne Hm).
    apply includes_true_iff. eauto.
Qed.

(** ** getUserCampaigns *)

Section UserCampaignsFacts.

Context `{M : Models}.

(** X1. [getUserCampaigns] watches the campaigns that the user owns or reviews,
    newest first: a record satisfies the query exactly when its
    [ownerAddress] or its [reviewerAddress] is the user's address.  Every
    emission is handed to [onSuccess] with its other fields untouched and
    its records mapped, in order, into Campaign objects; a failure goes to
    [onError]. *)
Theorem getUserCampaigns_selects_own_campaigns (userAddress : jsval)
    (skipPages itemsPerPage : Z) :
  let q := getUserCampaigns_query userAddress skipPages itemsPerPage in
  getUserCampaigns_start userAddress skipPages itemsPerPage =
  UserWatchFind "campaigns" "always" q ∧
  (∀ r : raw,
     user_satisfies q r = true ↔
     r !! "ownerAddress" = Some userAddress ∨
     r !! "reviewerAddress" = Some userAddress) ∧
  q_sort (uq_rest q) = [("createdAt", (-1)%Z)] ∧
  (∀ resp,
     ∃ newResp,
       getUserCampaigns_react (UserEmission resp) = UserOnSuccess newResp ∧
       page_rest newResp = page_rest resp ∧
       length (page_data newResp) = length (page_data resp) ∧
       ∀ i : nat,
         page_data newResp !! i = new_Campaign <$> page_data resp !! i) ∧
  (∀ e, getUserCampaigns_react (UserSubscriptionError e) = UserOnError e).
Proof.
  intros q. split_and!; try done.
  - intros r. unfold user_satisfies, satisfies. simpl.
    rewrite !andb_true_r, orb_false_r, orb_true_iff.
    by rewrite <- !holds_Is.
  - intros resp. exists (getUserCampaigns_newResp resp). split_and!; try done.
    + simpl. apply length_map.
    + intros i. simpl. apply list_lookup_fmap.
Qed.


End UserCampaignsFacts.

(** ** Runs, in general *)

Section MoreRuns.

Context `{M : Models}.

Lemma calls_Recv (ev : event) (l : list entry) :
  calls (Recv ev :: l) = calls l.
Proof. done. Qed.

Lemma calls_Call (ef : effect) (l : list entry) :
  calls (Call ef :: l) = ef :: calls l.
Proof. done. Qed.

(** A count of calls is bounded by a measure of the state that every
    reaction pays for. *)
Lemma times_bounded (P : process) (p : effect → bool) (left : state P → nat) :
  (∀ st ev st' out,
     react P st ev = Some (st', out) →
     times p (map Call out) + left st' ≤ left st) →
  ∀ evs st, times p (log_from P st evs) ≤ left st.
Proof.
  intros Hstep evs. induction evs as [|ev evs IH]; intros st.
  - simpl. lia.
  - cbn [log_from].
    destruct (react P st ev) as [[st' out]|] eqn:Hev; [|apply IH].
    apply Hstep in Hev. specialize (IH st').
    cbn [times calls_where]. rewrite times_app. lia.
Qed.

(** A property of calls that may depend on the events delivered so far
    holds throughout a run when every reaction establishes it. *)
Lemma calls_invariant (P : process) (Inv : list event → state P → Prop)
    (Q : list event → effect → Prop) :
  (∀ seen ev st, Inv seen st → Inv (seen ++ [ev]) st) →
  (∀ seen ev ef, Q seen ef → Q (seen ++ [ev]) ef) →
  (∀ seen st ev st' out,
     Inv seen st → react P st ev = Some (st', out) →
     Inv (seen ++ [ev]) st' ∧ Forall (Q (seen ++ [ev])) out) →
  ∀ evs seen st,
    Inv seen st → Forall (Q (seen ++ evs)) (calls (log_from P st evs)).
Proof.
  intros Hlater Hmono Hstep.
  assert (∀ evs seen ef, Q seen ef → Q (seen ++ evs) ef) as Hmonos.
  { induction evs as [|ev evs IH]; intros seen ef Hq.
    - by rewrite app_nil_r.
    - replace (seen ++ ev :: evs) with ((seen ++ [ev]) ++ evs)
        by (by rewrite <- app_assoc).
      by apply IH, Hmono. }
  induction evs as [|ev evs IH]; intros seen st Hinv; [constructor|].
  replace (seen ++ ev :: evs) with ((seen ++ [ev]) ++ evs)
    by (by rewrite <- app_assoc).
  cbn [log_from].
  destruct (react P st ev) as [[st' out]|] eqn:Hev.
  - destruct (Hstep seen st ev st' out Hinv Hev) as [Hinv' Hout].
    rewrite calls_Recv, calls_app, calls_map_Call.
    apply Forall_app. split; [|by apply IH].
    eapply Forall_impl; [exact Hout|]. intros ef. apply Hmonos.
  - apply IH. by apply Hlater.
Qed.

End MoreRuns.

(** ** save, further *)

Section MoreSave.

Context `{M : Models}.

Implicit Types (campaign : Campaign) (from : string) (st : save_state).

Ltac save_cases st ev :=
  destruct st as [[hash url] [] [] [] []], ev;
  simpl; try discriminate; try done.

Lemma save_create_start campaign from :
  truthy (campaign_id campaign) = false →
  start (save campaign from) =
  (SaveState (Vars None None) Unsent Pending Unsent Unsent, [GetNetwork]).
Proof. intros Hid. simpl. unfold save_start. by rewrite Hid. Qed.

(** *** The network cannot be resolved *)

(** X4. When [getNetwork()] rejects, the outer [catch] of [save] reports the
    failure, with a link made of the two variables that were never
    assigned, and the run ends there: the factory is not called, nothing is
    created, no callback is called. *)
Theorem save_network_rejection_reported campaign from (e : error)
    (evs : list event) :
  truthy (campaign_id campaign) = false →
  log (save campaign from) (NetworkRejected e :: evs) =
  [Call GetNetwork;
   Recv (NetworkRejected e);
   Call (ErrorPopup save_failed
           (Text ("undefinedtx/undefined => " +:+ json e)))].
Proof.
  intros Hid. unfold log. rewrite (save_create_start campaign from Hid).
  cbn [log_from react save save_react save_network_catch pending s_patch
       s_vars s_network s_tx s_create map app fst snd].
  rewrite (log_from_idle (save campaign from)); [done|].
  intros ev. by destruct ev.
Qed.

(** *** One outcome *)


(** *** The calls of the create branch *)

Lemma save_create_call_later campaign from (seen : list event) (ev : event)
    (ef : effect) :
  save_create_call campaign from seen ef →
  save_create_call campaign from (seen ++ [ev]) ef.
Proof.
  destruct ef; simpl; try done.
  - intros (h & Hh & Heq). exists h. rewrite elem_of_app. auto.
  - intros (n & Hn & Heq). exists n. rewrite elem_of_app. auto.
Qed.

Lemma save_create_call_step campaign from (seen : list event) st
    (ev : event) st' (out : list effect) :
  s_patch st = Unsent →
  react (save campaign from) st ev = Some (st', out) →
  s_patch st' = Unsent ∧
  Forall (save_create_call campaign from (seen ++ [ev])) out.
Proof.
  assert (ev ∈ seen ++ [ev]) as Hseen
    by (rewrite elem_of_app, list_elem_of_singleton; auto).
  revert Hseen.
  save_cases st ev; intros Hseen Hpatch [= <- <-]; simpl.
  all: split; [done|].
  all: try destruct (known_false_failure _ _).
  all: repeat (apply List.Forall_cons; [simpl; by eauto|]).
  all: apply List.Forall_nil.
Qed.

Lemma save_step_newCampaign campaign from st (ev : event) st'
    (out : list effect) :
  react (save campaign from) st ev = Some (st', out) →
  times is_newCampaign (map Call out) + newCampaign_left st'
  ≤ newCampaign_left st.
Proof.
  save_cases st ev; intros [= <- <-]; unfold newCampaign_left; simpl;
    try lia.
  all: destruct (known_false_failure _ _); simpl; lia.
Qed.

Lemma save_step_create campaign from st (ev : event) st'
    (out : list effect) :
  react (save campaign from) st ev = Some (st', out) →
  times is_create (map Call out) + create_left st' ≤ create_left st.
Proof.
  save_cases st ev; intros [= <- <-]; unfold create_left; simpl; try lia.
  all: destruct (known_false_failure _ _); simpl; lia.
Qed.

(** X5. For a campaign without an id, [save] never patches the store.  It
    calls the factory at most once, on the factory of the network it
    received, with the title, an empty url, parent project 0 and the
    reviewer, as the sender; and it creates at most one record, in
    [campaigns], serialised with a hash that the transaction emitted. *)
Theorem save_create_branch_calls campaign from (evs : list event) :
  truthy (campaign_id campaign) = false →
  Forall (save_create_call campaign from evs)
    (calls (log (save campaign from) evs)) ∧
  times is_newCampaign (log (save campaign from) evs) ≤ 1 ∧
  times is_create (log (save campaign from) evs) ≤ 1.
Proof.
  intros Hid. unfold log. rewrite (save_create_start campaign from Hid).
  cbn [fst snd map app]. split_and!.
  - rewrite calls_Call. apply List.Forall_cons; [done|].
    apply (calls_invariant (save campaign from)
             (λ _ st, s_patch st = Unsent)
             (save_create_call campaign from)
             ltac:(done)
             (save_create_call_later campaign from)
             (save_create_call_step campaign from) evs []).
    done.
  - cbn [times calls_where is_newCampaign].
    pose proof (times_bounded (save campaign from) is_newCampaign
                  newCampaign_left (save_step_newCampaign campaign from) evs
                  (SaveState (Vars None None) Unsent Pending Unsent Unsent))
      as Hle.
    unfold newCampaign_left in Hle. simpl in Hle. lia.
  - cbn [times calls_where is_create].
    pose proof (times_bounded (save campaign from) is_create create_left
                  (save_step_create campaign from) evs
                  (SaveState (Vars None None) Unsent Pending Unsent Unsent))
      as Hle.
    unfold create_left in Hle. simpl in Hle. lia.
Qed.

(** *** One explorer link *)











(** *** The answer of the create *)

(** X6. Whether the [create] resolves or is rejected changes nothing but the
    call of [afterCreate]: a rejected [create] is reported to nobody, and the
    rest of the run is the same. *)
Theorem save_create_outcome_is_local campaign from (evs : list event)
    (id : jsval) (e : error) (evs' : list event) :
  s_create (state_after (save campaign from) evs) = Pending →
  ∃ link rest,
    log (save campaign from) (evs ++ CreateResolved id :: evs') =
    log (save campaign from) evs ++
    Recv (CreateResolved id) :: Call (AfterCreate [VStr link; id]) :: rest ∧
    log (save campaign from) (evs ++ CreateRejected e :: evs') =
    log (save campaign from) evs ++ Recv (CreateRejected e) :: rest.
Proof.
  intros Hpending.
  set (st := state_after (save campaign from) evs) in *.
  exists (explorer_link (s_vars st)),
    (log_from (save campaign from)
       (SaveState (s_vars st) (s_patch st) (s_network st) (s_tx st) Settled)
       evs').
  unfold log. rewrite !log_from_app.
  fold (state_after (save campaign from) evs). fold st.
  rewrite <- !app_assoc.
  cbn [log_from react save save_react save_create_then].
  rewrite Hpending. by cbn [pending map app].
Qed.

End MoreSave.

(** ** cancel, further *)

Section MoreCancel.

Context `{M : Models}.

Implicit Types (campaign : Campaign) (from : string) (st : cancel_state).

Ltac cancel_cases st ev :=
  destruct st as [[hash url] [|n0|] [|w0|] [] [] []], ev;
  simpl; try discriminate; try done.


(** *** The network or the client cannot be resolved *)

(** Once [Promise.all] rejected, nothing is called any more. *)
Lemma cancel_failed_step campaign from st (ev : event) st'
    (out : list effect) :
  c_all st = Settled ∧ c_tx st = Unsent ∧ c_patch st = Unsent →
  react (cancel campaign from) st ev = Some (st', out) →
  (c_all st' = Settled ∧ c_tx st' = Unsent ∧ c_patch st' = Unsent) ∧
  out = [].
Proof.
  cancel_cases st ev; intros (Hall & Htx & Hpatch) [= <- <-]; simpl;
    try discriminate; done.
Qed.

Lemma cancel_failed_run campaign from (evs : list event) st :
  c_all st = Settled ∧ c_tx st = Unsent ∧ c_patch st = Unsent →
  calls (log_from (cancel campaign from) st evs) = [].
Proof.
  revert st. induction evs as [|ev evs IH]; intros st Hfailed; [done|].
  cbn [log_from].
  destruct (react (cancel campaign from) st ev) as [[st' out]|] eqn:Hev;
    [|by apply IH].
  destruct (cancel_failed_step campaign from st ev st' out Hfailed Hev)
    as [Hfailed' ->].
  rewrite calls_Recv. by apply IH.
Qed.

(** X8. When [getNetwork()] or [getWeb3()] rejects, whichever comes first and
    whether or not the other one resolved before, the outer [catch] of
    [cancel] reports that failure once, with a link made of the two
    variables that were never assigned; the contract is not called, the
    store is not patched, no callback is called, and a later rejection of
    the other promise is not reported. *)
Theorem cancel_first_rejection_reported campaign from (e : error)
    (evs : list event) :
  let reported :=
    [GetNetwork; GetWeb3;
     ErrorPopup cancel_failed
       (Text ("undefinedtx/undefined => " +:+ json e))] in
  calls (log (cancel campaign from) (NetworkRejected e :: evs)) = reported ∧
  calls (log (cancel campaign from) (Web3Rejected e :: evs)) = reported ∧
  (∀ n,
     calls (log (cancel campaign from)
              (NetworkResolved n :: Web3Rejected e :: evs)) = reported) ∧
  (∀ w,
     calls (log (cancel campaign from)
              (Web3Resolved w :: NetworkRejected e :: evs)) = reported).
Proof.
  intros reported. unfold log.
  cbn [start cancel cancel_start fst snd map app log_from react cancel_react
       not_yet pending c_vars c_network c_web3 c_all c_tx c_patch
       cancel_all_catch].
  split_and!; intros;
    repeat first [rewrite calls_Call | rewrite calls_Recv];
    rewrite cancel_failed_run; done.
Qed.

(** *** The calls on the contract and on the store *)

Lemma cancel_got_later (seen : list event) (ev : event) st :
  cancel_got seen st → cancel_got (seen ++ [ev]) st.
Proof.
  intros [Hnet Hweb]. split.
  - intros n Hn. rewrite elem_of_app. auto.
  - intros w Hw. rewrite elem_of_app. auto.
Qed.

Lemma cancel_call_later campaign from (seen : list event) (ev : event)
    (ef : effect) :
  cancel_call campaign from seen ef →
  cancel_call campaign from (seen ++ [ev]) ef.
Proof.
  destruct ef; simpl; try done.
  intros (n & w & Hn & Hw & Heq). exists n, w. rewrite !elem_of_app. auto.
Qed.

Lemma cancel_call_step campaign from (seen : list event) st (ev : event)
    st' (out : list effect) :
  cancel_got seen st →
  react (cancel campaign from) st ev = Some (st', out) →
  cancel_got (seen ++ [ev]) st' ∧
  Forall (cancel_call campaign from (seen ++ [ev])) out.
Proof.
  intros Hgot Hev. apply (cancel_got_later seen ev) in Hgot.
  destruct Hgot as [Hnet Hweb].
  assert (ev ∈ seen ++ [ev]) as Hseen
    by (rewrite elem_of_app, list_elem_of_singleton; auto).
  revert Hnet Hweb Hseen Hev. unfold cancel_got.
  cancel_cases st ev; intros Hnet Hweb Hseen [= <- <-]; simpl.
  all: split; [split; [intros n' Hn' | intros w' Hw']|].
  all: try discriminate.
  all: try (injection Hn' as <-); try (injection Hw' as <-); try done.
  all: try by apply Hnet.
  all: try by apply Hweb.
  all: try destruct (known_false_failure _ _).
  all: repeat (apply List.Forall_cons; [simpl; by eauto 10|]).
  all: apply List.Forall_nil.
Qed.

Lemma cancel_step_cancelCampaign campaign from st (ev : event) st'
    (out : list effect) :
  react (cancel campaign from) st ev = Some (st', out) →
  times is_cancelCampaign (map Call out) + cancelCampaign_left st'
  ≤ cancelCampaign_left st.
Proof.
  cancel_cases st ev; intros [= <- <-]; unfold cancelCampaign_left; simpl;
    try lia.
  all: destruct (known_false_failure _ _); simpl; lia.
Qed.

(** X9. [cancel] calls the contract at most once, and only once both the
    network and the client were received, in whichever order: it wraps the
    client that [getWeb3] resolved to around [campaign.pluginAddress] and
    calls [cancelCampaign] as the sender.  Whatever it patches is the record
    of [campaign.id], with the status Canceled and [mined] false. *)
Theorem cancel_contract_called_once campaign from (evs : list event) :
  Forall (cancel_call campaign from evs)
    (calls (log (cancel campaign from) evs)) ∧
  times is_cancelCampaign (log (cancel campaign from) evs) ≤ 1 ∧
  (∀ n w,
     calls (log (cancel campaign from) [NetworkResolved n; Web3Resolved w]) =
     [GetNetwork; GetWeb3; CancelCampaign w (pluginAddress campaign) from] ∧
     calls (log (cancel campaign from) [Web3Resolved w; NetworkResolved n]) =
     [GetNetwork; GetWeb3; CancelCampaign w (pluginAddress campaign) from]).
Proof.
  split_and!.
  - unfold log. cbn [start cancel cancel_start fst snd map app].
    rewrite !calls_Call. do 2 (apply List.Forall_cons; [done|]).
    apply (calls_invariant (cancel campaign from) cancel_got
             (cancel_call campaign from) cancel_got_later
             (cancel_call_later campaign from)
             (cancel_call_step campaign from) evs []).
    by split.
  - unfold log. cbn [start cancel cancel_start fst snd map app].
    cbn [times calls_where is_cancelCampaign].
    pose proof (times_bounded (cancel campaign from) is_cancelCampaign
                  cancelCampaign_left
                  (cancel_step_cancelCampaign campaign from) evs
                  cancel_start.1) as Hle.
    unfold cancelCampaign_left in Hle. simpl in Hle. simpl. lia.
  - by intros n w.
Qed.

(** *** The patch *)

Lemma cancel_step_patch campaign from st (ev : event) st'
    (out : list effect) :
  react (cancel campaign from) st ev = Some (st', out) →
  times is_patch (map Call out) + patch_left st' ≤ patch_left st.
Proof.
  cancel_cases st ev; intros [= <- <-]; unfold patch_left; simpl; try lia.
  all: destruct (known_false_failure _ _); simpl; lia.
Qed.

Lemma cancel_step_patch_afterCreate campaign from st (ev : event) st'
    (out : list effect) :
  react (cancel campaign from) st ev = Some (st', out) →
  times is_afterCreate (map Call out) = times is_patch (map Call out).
Proof.
  cancel_cases st ev; intros [= <- <-]; simpl; try done.
  all: by destruct (known_false_failure _ _).
Qed.

Lemma cancel_patch_afterCreate_run campaign from (evs : list event) st :
  times is_afterCreate (log_from (cancel campaign from) st evs) =
  times is_patch (log_from (cancel campaign from) st evs).
Proof.
  revert st. induction evs as [|ev evs IH]; intros st; [done|].
  cbn [log_from].
  destruct (react (cancel campaign from) st ev) as [[st' out]|] eqn:Hev;
    [|apply IH].
  cbn [times calls_where]. rewrite !times_app, IH.
  by rewrite (cancel_step_patch_afterCreate campaign from st ev st' out Hev).
Qed.

(** X10. In any run [cancel] patches the store at most once, and it calls
    [afterCreate] exactly as often as it patches.  The patch sets the status
    to Canceled and [mined] to false, and no other field: the transaction
    hash is not stored. *)
Theorem cancel_patches_once campaign from (evs : list event) :
  times is_patch (log (cancel campaign from) evs) ≤ 1 ∧
  times is_afterCreate (log (cancel campaign from) evs) =
  times is_patch (log (cancel campaign from) evs) ∧
  canceled_fields !! "status" = Some Campaign_CANCELED ∧
  canceled_fields !! "mined" = Some (VBool false) ∧
  ∀ k, k ≠ "status" → k ≠ "mined" → canceled_fields !! k = None.
Proof.
  unfold log. cbn [start cancel cancel_start fst snd map app].
  cbn [times calls_where is_patch is_afterCreate]. split_and!.
  - pose proof (times_bounded (cancel campaign from) is_patch patch_left
                  (cancel_step_patch campaign from) evs cancel_start.1)
      as Hle.
    unfold patch_left in Hle. simpl in Hle. simpl. lia.
  - simpl. apply cancel_patch_afterCreate_run.
  - unfold canceled_fields. by simplify_map_eq.
  - unfold canceled_fields. by simplify_map_eq.
  - intros k Hstatus Hmined. unfold canceled_fields. by simplify_map_eq.
Qed.

(** X11. Whether the patch resolves or is rejected changes nothing but the
    popup about the update: the rest of the run is the same. *)
Theorem cancel_patch_outcome_is_local campaign from (evs : list event)
    (v : jsval) (e : error) (evs' : list event) :
  c_patch (state_after (cancel campaign from) evs) = Pending →
  ∃ rest,
    log (cancel campaign from) (evs ++ PatchResolved v :: evs') =
    log (cancel campaign from) evs ++ Recv (PatchResolved v) :: rest ∧
    log (cancel campaign from) (evs ++ PatchRejected e :: evs') =
    log (cancel campaign from) evs ++
    Recv (PatchRejected e) :: Call (ErrorPopup update_failed (Err e)) :: rest.
Proof.
  intros Hpending.
  set (st := state_after (cancel campaign from) evs) in *.
  exists (log_from (cancel campaign from)
            (CancelState (c_vars st) (c_network st) (c_web3 st) (c_all st)
               (c_tx st) Settled) evs').
  unfold log. rewrite !log_from_app.
  fold (state_after (cancel campaign from) evs). fold st. rewrite <- !app_assoc.
  cbn [log_from react cancel cancel_react cancel_patch_catch].
  rewrite Hpending. by cbn [pending map app].
Qed.

(** *** One outcome *)



(** *** One explorer link *)








End MoreCancel.

(** ** More concrete runs *)

Section MoreSamples.

#[local] Existing Instance sample_models.

Lemma save_network_rejection_reported_witness :
  truthy (campaign_id draft) = false ∧
  log (save draft "0xFrom") [NetworkRejected denied; Mined] =
  [Call GetNetwork;
   Recv (NetworkRejected denied);
   Call (ErrorPopup save_failed (Text "undefinedtx/undefined => {}"))].
Proof.
  assert (truthy (campaign_id draft) = false) as Hid by reflexivity.
  split; [exact Hid|].
  apply (save_network_rejection_reported draft "0xFrom" denied [Mined] Hid).
Defined.

Lemma save_create_branch_calls_witness :
  truthy (campaign_id draft) = false ∧
  Forall
    (save_create_call draft "0xFrom"
       [NetworkResolved ropsten; TransactionHash "0xH"])
    [GetNetwork;
     NewCampaign (Handle "factory") "T" "" 0 "0xA" "0xFrom";
     Create "campaigns" (<["txHash" := VStr "0xH"]> draft)].
Proof.
  assert (truthy (campaign_id draft) = false) as Hid by reflexivity.
  split; [exact Hid|].
  destruct (save_create_branch_calls draft "0xFrom"
              [NetworkResolved ropsten; TransactionHash "0xH"] Hid)
    as (Hcalls & _ & _).
  exact Hcalls.
Defined.



Lemma cancel_patch_outcome_is_local_witness :
  let evs :=
    [NetworkResolved ropsten; Web3Resolved (Handle "web3");
     TransactionHash "0xH"] in
  c_patch (state_after (cancel stored "0xFrom") evs) = Pending ∧
  ∃ rest,
    log (cancel stored "0xFrom") (evs ++ [PatchResolved VUndefined; Mined]) =
    log (cancel stored "0xFrom") evs ++
    Recv (PatchResolved VUndefined) :: rest ∧
    log (cancel stored "0xFrom") (evs ++ [PatchRejected denied; Mined]) =
    log (cancel stored "0xFrom") evs ++
    Recv (PatchRejected denied) ::
    Call (ErrorPopup update_failed (Err denied)) :: rest.
Proof.
  intros evs.
  assert (c_patch (state_after (cancel stored "0xFrom") evs) = Pending)
    as Hpending by reflexivity.
  split; [exact Hpending|].
  apply (cancel_patch_outcome_is_local stored "0xFrom" evs VUndefined denied
           [Mined] Hpending).
Defined.

Lemma get_empty_result_constructor_throws_witness :
  log (get (M := strict_models) (VStr "c1")) [FindResolved (Response [] 0)] =
  [Call (Find "campaigns" (get_query (VStr "c1")));
   Recv (FindResolved (Response [] 0));
   Call (Reject (M := strict_models) no_record)].
Proof.
  apply (get_empty_result_constructor_throws (M := strict_models) (VStr "c1")
           (Response [] 0) no_record [] eq_refl eq_refl).
Defined.

Lemma save_create_outcome_is_local_witness :
  let evs := [NetworkResolved ropsten; TransactionHash "0xH"] in
  s_create (state_after (save draft "0xFrom") evs) = Pending ∧
  ∃ link rest,
    log (save draft "0xFrom") (evs ++ [CreateResolved (VStr "id1"); Mined]) =
    log (save draft "0xFrom") evs ++
    Recv (CreateResolved (VStr "id1")) ::
    Call (AfterCreate [VStr link; VStr "id1"]) :: rest ∧
    log (save draft "0xFrom") (evs ++ [CreateRejected denied; Mined]) =
    log (save draft "0xFrom") evs ++ Recv (CreateRejected denied) :: rest.
Proof.
  intros evs.
  assert (s_create (state_after (save draft "0xFrom") evs) = Pending)
    as Hpending by reflexivity.
  split; [exact Hpending|].
  apply (save_create_outcome_is_local draft "0xFrom" evs (VStr "id1") denied
           [Mined] Hpending).
Defined.

End MoreSamples.
